(** * qri-io/errors: the rich error type and its code registry

    A shallow embedding of [error.go]: the [Code] registry ([codePool],
    [RegisterCode], [CodeString], [CodeHTTPStatus]), the [Error] struct with
    its methods ([Error], [Cause], [Code], [Fix], [Friendly]), the six
    constructors and the package-level [Cause].

    Conventions of the embedding.
    - A Go [int] ([Code], [httpStatus], loop indices) is a [Z]; the package
      does no arithmetic on codes or statuses, and the only arithmetic on an
      index is [len(e.data)-1], far from the machine bounds.
    - A Go [string] is a [string] (a sequence of bytes).
    - A value of the interface type [error] is an [option err]: [None] is the
      nil interface, [Some x] a dynamic value [x].
    - A [*Error] is represented by the struct it points to: every [*Error] of
      the package is the address of a fresh struct literal, so it is never nil
      and never aliased.
    - The registry [codePool] is a package-level variable; functions that read
      it take it as an argument, [RegisterCode] returns the new registry.
    - A run-time panic is the [Panics] outcome. *)

From stdpp Require Import gmap strings pretty.

Local Open Scope Z_scope.
Local Open Scope string_scope.

(** ** Outcomes of calls that may panic *)

Inductive outcome (A : Type) : Type :=
| Returns (a : A)
| Panics (reason : string).
Arguments Returns {A} a.
Arguments Panics {A} reason.

#[global] Instance outcome_ret : MRet outcome := fun A a => Returns a.
#[global] Instance outcome_bind : MBind outcome := fun A B k m =>
  match m with
  | Returns a => k a
  | Panics r => Panics r
  end.

(** The run-time error of calling a method on a nil interface value. *)
Definition nil_dereference : string :=
  "runtime error: invalid memory address or nil pointer dereference".

(** ** Values and errors *)

(** The [interface{}] values handed to the constructors as [data]: strings,
    integers (a [Code] among them: it has no [String] method), booleans and
    the nil interface. *)
Inductive value : Type :=
| VString (s : string)
| VInt (z : Z)
| VBool (b : bool)
| VNil.

(** [type Code int] *)
Definition Code : Type := Z.

Definition CodeUnknown : Code := 0.
Definition CodeGeneric : Code := 1.
Definition CodeInvalidSyntax : Code := 2.
Definition CodeInvalidArgs : Code := 3.
Definition CodeUnauthorized : Code := 4.
Definition CodeForbidden : Code := 5.
Definition CodeNotFound : Code := 6.
Definition CodeUnavailable : Code := 7.

(** [type codeDetails struct] *)
Record codeDetails : Type := mkCodeDetails {
  httpStatus : Z;
  str : string
}.

(** [type Error struct], over the type [E] of dynamic error values its
    [cause] field may hold. *)
Record Error_of (E : Type) : Type := mkError {
  code : Code;
  friendly : string;
  fix_ : string;
  data : list value;
  cause : option E
}.
Arguments mkError {E} _ _ _ _ _.
Arguments code {E} _.
Arguments friendly {E} _.
Arguments fix_ {E} _.
Arguments data {E} _.
Arguments cause {E} _.

(** The dynamic values an [error] interface holds in programs that use this
    package together with github.com/pkg/errors:
    - [plain]: an error of another package without a [Cause] method
      ([fmt.Errorf], the standard [errors.New]);
    - [fundamental]: the result of pkg/errors' [New] (its stack is not kept);
    - [withMessage], [withStack]: the two layers pkg/errors' [Wrap] adds, both
      built on a non-nil error only;
    - [causer]: an error of another package that has a [Cause] method;
    - [rich]: a [*Error] of this package. *)
#[local] Unset Elimination Schemes.
Inductive err : Type :=
| plain (msg : string)
| fundamental (msg : string)
| withMessage (inner : err) (msg : string)
| withStack (inner : err)
| causer (msg : string) (inner : option err)
| rich (e : Error_of err).

#[local] Set Elimination Schemes.

Abbreviation error := (option err).
Abbreviation Error := (Error_of err).

(** Conversion of a [*Error] to the interface [error]. *)
Definition as_error (e : Error) : error := Some (rich e).

(** ** The external collaborator, github.com/pkg/errors *)

Module errors.

(** Modelled from the spec: pkg/errors' [New], which is imported and not part
    of this repository: "create plain error from message". *)
Definition New (message : string) : error := Some (fundamental message).

(** Modelled from the spec: pkg/errors' [Wrap], which is imported and not part
    of this repository: "wrap existing error with message, preserving chain";
    on a nil error it returns nil (the sentence "If err is nil, Wrap returns
    nil" of its documentation, repeated above this package's [Wrap]). *)
Definition Wrap (e : error) (message : string) : error :=
  match e with
  | None => None
  | Some x => Some (withStack (withMessage x message))
  end.

(** The type assertion [err.(causer)] followed by the call of [Cause()]:
    [None] when the dynamic value has no [Cause] method. For a [rich] value
    this is [Error.Cause] itself, [return e.cause]. *)
Definition cause_of (x : err) : option error :=
  match x with
  | plain _ | fundamental _ => None
  | withMessage inner _ => Some (Some inner)
  | withStack inner => Some (Some inner)
  | causer _ inner => Some inner
  | rich e => Some (cause e)
  end.

(** Modelled from the spec: pkg/errors' [Cause], which is imported and not
    part of this repository: the loop that replaces the error by its cause
    as long as it is not nil and has a [Cause] method. [fuel] bounds the
    number of iterations; [None] means the bound was reached. *)
Fixpoint Cause (fuel : nat) (e : error) : option error :=
  match e with
  | None => Some None
  | Some x =>
      match cause_of x with
      | None => Some e
      | Some c =>
          match fuel with
          | O => None
          | S fuel' => Cause fuel' c
          end
      end
  end.

End errors.

(** The number of [Cause] links below an error. *)
Fixpoint chain_length (x : err) : nat :=
  match x with
  | plain _ | fundamental _ => 0
  | withMessage inner _ => S (chain_length inner)
  | withStack inner => S (chain_length inner)
  | causer _ inner =>
      match inner with
      | None => 1
      | Some c => S (chain_length c)
      end
  | rich e =>
      match cause e with
      | None => 1
      | Some c => S (chain_length c)
      end
  end%nat.

Definition chain_length_error (e : error) : nat :=
  match e with
  | None => 0
  | Some x => chain_length x
  end%nat.

(** ** The code registry *)

(** [var codePool], as the package initialises it. *)
Definition codePool0 : gmap Code codeDetails :=
  <[CodeUnknown := mkCodeDetails 500 "error"]>
  (<[CodeGeneric := mkCodeDetails 500 "error"]>
  (<[CodeInvalidSyntax := mkCodeDetails 400 "syntax"]>
  (<[CodeInvalidArgs := mkCodeDetails 400 "arguments"]>
  (<[CodeUnauthorized := mkCodeDetails 401 "auth"]>
  (<[CodeForbidden := mkCodeDetails 403 "auth"]>
  (<[CodeNotFound := mkCodeDetails 404 "missing"]>
  (<[CodeUnavailable := mkCodeDetails 503 "unavailable"]> ∅))))))).

(** [fmt.Sprintf("%v", d)] *)
Definition Sprintf_v (d : value) : string :=
  match d with
  | VString s => s
  | VInt z => pretty z
  | VBool true => "true"
  | VBool false => "false"
  | VNil => "<nil>"
  end.

(** [fmt.Sprintf("%s: %s", a, b)] *)
Definition Sprintf_s_colon_s (a b : string) : string := a +:+ ": " +:+ b.

Section Reading.

Variable codePool : gmap Code codeDetails.

(** [func CodeString(c Code) string] *)
Definition CodeString (c : Code) : string :=
  match codePool !! c with
  | Some s => str s
  | None => "error"
  end.

(** [func CodeHTTPStatus(c Code) int] *)
Definition CodeHTTPStatus (c : Code) : Z :=
  match codePool !! c with
  | Some s => httpStatus s
  | None => 500
  end.

(** [func (e Error) Error() string], over the method [Error()] of the
    interface [error] that the call [e.cause.Error()] dispatches to. Calling
    it on a nil [cause] panics. *)
Definition Error_Error_open (error_Error : err -> outcome string) (e : Error)
  : outcome string :=
  match cause e with
  | None => Panics nil_dereference
  | Some c =>
      s ← error_Error c;
      mret (Sprintf_s_colon_s (CodeString (code e)) s)
  end.

(** The method [Error()] of each dynamic value: pkg/errors' [fundamental]
    returns its message, [withMessage] its message, [": "] and the inner
    error's string, [withStack] the inner error's string; a [*Error] runs the
    method above. *)
Fixpoint err_Error (x : err) : outcome string :=
  match x with
  | plain msg => mret msg
  | fundamental msg => mret msg
  | withMessage inner msg => s ← err_Error inner; mret (msg +:+ ": " +:+ s)
  | withStack inner => err_Error inner
  | causer msg _ => mret msg
  | rich e => Error_Error_open err_Error e
  end.

(** [func (e Error) Error() string] *)
Definition Error_Error (e : Error) : outcome string :=
  Error_Error_open err_Error e.

(** The body of the loop [for i, d := range e.data] of [Friendly], from index
    [i] on, with [len = len(e.data)]. *)
Fixpoint Friendly_loop (len i : Z) (ds : list value) (s : string) : string :=
  match ds with
  | [] => s
  | d :: ds' =>
      let s := s +:+ (" " +:+ Sprintf_v d) in
      let s := if (i <? len - 1)%Z then s +:+ "," else s +:+ "." in
      Friendly_loop len (i + 1) ds' s
  end.

(** [func (e Error) Friendly() string] *)
Definition Error_Friendly (e : Error) : string :=
  if String.eqb (friendly e) "" && String.eqb (fix_ e) "" then ""
  else
    let s := Sprintf_s_colon_s (CodeString (code e)) (friendly e) in
    let s := Friendly_loop (Z.of_nat (length (data e))) 0 (data e) s in
    if negb (String.eqb (fix_ e) "") then s +:+ (" " +:+ fix_ e) else s.

End Reading.

(** [func (e Error) Cause() error] *)
Definition Error_Cause (e : Error) : error := cause e.

(** [func (e Error) Code() Code] *)
Definition Error_Code (e : Error) : Code := code e.

(** [func (e Error) Fix() string] *)
Definition Error_Fix (e : Error) : string := fix_ e.

(** ** Constructors *)

(** The assignments [err.friendly = friendly] and [e.fix = fix]. *)
Definition set_friendly (e : Error) (s : string) : Error :=
  mkError (code e) s (fix_ e) (data e) (cause e).

Definition set_fix (e : Error) (s : string) : Error :=
  mkError (code e) (friendly e) s (data e) (cause e).

(** [func New(c Code, message string, data ...interface{}) *Error] *)
Definition New (c : Code) (message : string) (data : list value) : Error :=
  let err := errors.New message in
  {| code := c; friendly := ""; fix_ := ""; data := data; cause := err |}.

(** [func NewFriendly] *)
Definition NewFriendly (c : Code) (message friendly : string)
    (data : list value) : Error :=
  let err := New c message data in
  set_friendly err friendly.

(** [func NewFriendlyFix] *)
Definition NewFriendlyFix (c : Code) (message friendly fix_ : string)
    (data : list value) : Error :=
  let err := NewFriendly c message friendly data in
  set_fix err fix_.

(** [func Wrap(c Code, err error, message string, data ...interface{}) *Error] *)
Definition Wrap (c : Code) (err : error) (message : string)
    (data : list value) : Error :=
  {| code := c; friendly := ""; fix_ := ""; data := data;
     cause := errors.Wrap err message |}.

(** [func WrapFriendly] *)
Definition WrapFriendly (c : Code) (err : error) (message friendly : string)
    (data : list value) : Error :=
  let e := Wrap c err message data in
  set_friendly e friendly.

(** [func WrapFriendlyFix] *)
Definition WrapFriendlyFix (c : Code) (err : error)
    (message friendly fix_ : string) (data : list value) : Error :=
  let e := WrapFriendly c err message friendly data in
  set_fix e fix_.

(** [func Cause(err error) error], which proxies pkg/errors' [Cause]. *)
Definition Cause (fuel : nat) (err : error) : option error :=
  errors.Cause fuel err.

(** [func RegisterCode(c Code, httpStatus int, typeStr string) error]: the
    registry after the call and the error returned. *)
Definition RegisterCode (c : Code) (httpStatus : Z) (typeStr : string)
    (codePool : gmap Code codeDetails) : gmap Code codeDetails * error :=
  match codePool !! c with
  | Some _ =>
      (codePool, as_error (New CodeInvalidArgs "already registered" [VInt c]))
  | None => (<[c := mkCodeDetails httpStatus typeStr]> codePool, None)
  end.

(** The registries a program can reach: the initial one, changed by calls of
    [RegisterCode] only. *)
Inductive reachable : gmap Code codeDetails -> Prop :=
| reachable_init : reachable codePool0
| reachable_register pool c status label :
    reachable pool -> reachable (RegisterCode c status label pool).1.

(** ** The documented behaviour, stated on its own *)

(** The data values as the documentation of [Friendly] lists them: each one
    after a space, a comma after every value but the last, a period after
    the last. *)
Fixpoint data_sentence (ds : list value) : string :=
  match ds with
  | [] => ""
  | d :: rest =>
      " " +:+ Sprintf_v d
      +:+ match rest with [] => "." | _ :: _ => "," end
      +:+ data_sentence rest
  end.

(** The friendly message as documented: the label of the code, [": "], the
    friendly text, the data values, and the fix after a space when there is
    one. *)
Definition friendly_sentence (pool : gmap Code codeDetails) (e : Error)
  : string :=
  CodeString pool (code e) +:+ ": " +:+ friendly e
  +:+ data_sentence (data e)
  +:+ (if String.eqb (fix_ e) "" then "" else " " +:+ fix_ e).

(** [innermost_error e x]: following the causes from [e], [x] is the error
    at the end of the chain: the first one without a [Cause] method. *)
Inductive innermost_error : error -> err -> Prop :=
| innermost_error_here x :
    errors.cause_of x = None -> innermost_error (Some x) x
| innermost_error_below x c r :
    errors.cause_of x = Some c -> innermost_error c r ->
    innermost_error (Some x) r.

(** [ends_in_nil_cause e]: following the causes from the non-nil [e], some
    error's [Cause()] returns nil. *)
Inductive ends_in_nil_cause : error -> Prop :=
| ends_in_nil_cause_here x :
    errors.cause_of x = Some None -> ends_in_nil_cause (Some x)
| ends_in_nil_cause_below x c :
    errors.cause_of x = Some c -> ends_in_nil_cause c ->
    ends_in_nil_cause (Some x).

(** A value that exposes no further cause. *)
Definition exposes_no_cause (e : error) : Prop :=
  match e with
  | None => True
  | Some x => errors.cause_of x = None
  end.

(** A value that is a [*Error] of this package. *)
Definition is_rich (e : error) : bool :=
  match e with
  | Some (rich _) => true
  | _ => false
  end.

(** [Error()] on [x] meets no [*Error] with a nil cause: the method of a
    [*Error] calls the one of its cause, pkg/errors' wrappers call the one of
    the error they wrap, every other error returns its own message. *)
Fixpoint causes_present (x : err) : bool :=
  match x with
  | plain _ | fundamental _ => true
  | withMessage inner _ => causes_present inner
  | withStack inner => causes_present inner
  | causer _ _ => true
  | rich e =>
      match cause e with
      | None => false
      | Some c => causes_present c
      end
  end.

(** ** Tests of the package, run on the embedding *)

Example TestNewWithMessage :
  let e := NewFriendly CodeGeneric "machine error" "message" [] in
  Error_Friendly codePool0 e = "error: message" /\
  Error_Error codePool0 e = Returns "error: machine error".
Proof. vm_compute. done. Qed.

Example ExampleNewWithMessage :
  Error_Friendly codePool0
    (WrapFriendly CodeNotFound (Some (plain "not found")) ""
       "couldn't find data with the id" [VInt 1])
  = "missing: couldn't find data with the id 1.".
Proof. vm_compute. done. Qed.

Example TestRegisterCode :
  (RegisterCode CodeForbidden 200 "forbidden" codePool0).2 <> None /\
  CodeHTTPStatus (RegisterCode 100 504 "database" codePool0).1 100 = 504.
Proof. vm_compute. done. Qed.

Example TestCodeVals :
  CodeString codePool0 (-1) = "error" /\ CodeHTTPStatus codePool0 (-1) = 500.
Proof. vm_compute. done. Qed.

Example TestError :
  let val := "a" in
  let a := New CodeGeneric "so bad" [] in
  let b := Wrap CodeInvalidArgs (as_error a) val [] in
  let c := WrapFriendlyFix CodeForbidden (as_error b)
             "you're not allowed access to the value"
             "please try a different value" val [] in
  let fix_ := "are you sure you're logged in?" in
  let d := NewFriendlyFix CodeForbidden "forbidden"
             "you don't have access to the following things:" fix_
             [VString "apples"; VString "oranges"] in
  Cause 8 (as_error c) = Some (Some (fundamental "so bad")) /\
  Error_Friendly codePool0 a = "" /\
  Error_Code c = CodeForbidden /\
  Error_Fix d = fix_ /\
  Error_Friendly codePool0 d =
    "auth: you don't have access to the following things: apples, oranges. are you sure you're logged in?".
Proof. vm_compute. done. Qed.

(** ** Strings *)

Lemma append_cons (x : Ascii.ascii) (a b : string) :
  String x a +:+ b = String x (a +:+ b).
Proof. reflexivity. Qed.

Lemma append_empty_l (a : string) : "" +:+ a = a.
Proof. reflexivity. Qed.

Lemma append_assoc (a b c : string) : (a +:+ b) +:+ c = a +:+ (b +:+ c).
Proof.
  induction a as [|x a IH]; [done |].
  by rewrite !append_cons, IH.
Qed.

Lemma append_empty_r (a : string) : a +:+ "" = a.
Proof.
  induction a as [|x a IH]; [done |].
  by rewrite append_cons, IH.
Qed.

Lemma append_eq_empty (a b : string) : a +:+ b = "" -> a = "" /\ b = "".
Proof.
  destruct a as [|x a]; [by rewrite append_empty_l |].
  rewrite append_cons. discriminate.
Qed.

Lemma eqb_empty_false (s : string) : String.eqb s "" = false <-> s <> "".
Proof. apply String.eqb_neq. Qed.

(** ** The registry *)

Lemma RegisterCode_registered pool c status label d :
  pool !! c = Some d ->
  RegisterCode c status label pool
  = (pool, as_error (New CodeInvalidArgs "already registered" [VInt c])).
Proof. intros H. unfold RegisterCode. by rewrite H. Qed.

Lemma RegisterCode_fresh pool c status label :
  pool !! c = None ->
  RegisterCode c status label pool
  = (<[c := mkCodeDetails status label]> pool, None).
Proof. intros H. unfold RegisterCode. by rewrite H. Qed.

(** A registration never changes the details of a registered code. *)
Lemma RegisterCode_keeps pool c status label k d :
  pool !! k = Some d -> (RegisterCode c status label pool).1 !! k = Some d.
Proof.
  intros Hk. unfold RegisterCode.
  destruct (pool !! c) as [d'|] eqn:Hc; simpl; [done |].
  rewrite lookup_insert_ne; [done | congruence].
Qed.

Lemma reachable_keeps pool k d :
  reachable pool -> codePool0 !! k = Some d -> pool !! k = Some d.
Proof.
  induction 1 as [| pool c status label _ IH]; intros Hk; [done |].
  by apply RegisterCode_keeps, IH.
Qed.

Lemma reachable_CodeString pool k d :
  reachable pool -> codePool0 !! k = Some d -> CodeString pool k = str d.
Proof.
  intros Hr Hk. unfold CodeString. by rewrite (reachable_keeps _ _ _ Hr Hk).
Qed.

Lemma reachable_CodeHTTPStatus pool k d :
  reachable pool -> codePool0 !! k = Some d ->
  CodeHTTPStatus pool k = httpStatus d.
Proof.
  intros Hr Hk. unfold CodeHTTPStatus.
  by rewrite (reachable_keeps _ _ _ Hr Hk).
Qed.

(** C3: [RegisterCode] returns an error exactly when the code is already in
    the registry, and then the registry is the one before the call: the
    details stored for the code, and so what [CodeHTTPStatus] and
    [CodeString] return for it, are those of the original registration. *)
Theorem RegisterCode_error_iff_registered
    (pool : gmap Code codeDetails) (c : Code) (status : Z) (label : string) :
  ((RegisterCode c status label pool).2 <> None <-> is_Some (pool !! c)) /\
  ((RegisterCode c status label pool).2 <> None ->
     (RegisterCode c status label pool).1 = pool /\
     (RegisterCode c status label pool).1 !! c = pool !! c /\
     CodeHTTPStatus (RegisterCode c status label pool).1 c
       = CodeHTTPStatus pool c /\
     CodeString (RegisterCode c status label pool).1 c = CodeString pool c).
Proof.
  destruct (pool !! c) as [d|] eqn:Hc.
  - rewrite (RegisterCode_registered _ _ _ _ _ Hc). simpl.
    split; [split; [eauto | done] | done].
  - rewrite (RegisterCode_fresh _ _ _ _ Hc). simpl.
    split; [split; [done | by intros [? ?]] | done].
Qed.

Lemma RegisterCode_error_iff_registered_witness :
  (RegisterCode CodeForbidden 200 "forbidden" codePool0).2 <> None /\
  CodeHTTPStatus (RegisterCode CodeForbidden 200 "forbidden" codePool0).1
    CodeForbidden = 403 /\
  CodeString (RegisterCode CodeForbidden 200 "forbidden" codePool0).1
    CodeForbidden = "auth".
Proof.
  destruct (RegisterCode_error_iff_registered
              codePool0 CodeForbidden 200 "forbidden") as [Hiff Hfail].
  assert (Herr : (RegisterCode CodeForbidden 200 "forbidden" codePool0).2
                 <> None).
  { apply Hiff. vm_compute. eauto. }
  destruct (Hfail Herr) as (_ & _ & Hstatus & Hlabel).
  split; [exact Herr |].
  rewrite Hstatus, Hlabel. vm_compute. done.
Defined.

(** C5: for a code that is not in the registry, negative codes included,
    [CodeString] returns ["error"] and [CodeHTTPStatus] returns [500]. Both
    are total functions of the registry and the code. *)
Theorem unregistered_code_defaults
    (pool : gmap Code codeDetails) (c : Code) :
  pool !! c = None ->
  CodeString pool c = "error" /\ CodeHTTPStatus pool c = 500.
Proof. intros H. unfold CodeString, CodeHTTPStatus. by rewrite H. Qed.

Lemma unregistered_code_defaults_witness :
  codePool0 !! (-1) = None /\
  CodeString codePool0 (-1) = "error" /\ CodeHTTPStatus codePool0 (-1) = 500.
Proof.
  split; [vm_compute; reflexivity |].
  apply (unregistered_code_defaults codePool0 (-1)). vm_compute. reflexivity.
Defined.

(** C8: registering a code that is not in the registry returns no error, and
    afterwards [CodeHTTPStatus] returns the status and [CodeString] the label
    of the call. *)
Theorem RegisterCode_fresh_reads_back
    (pool : gmap Code codeDetails) (c : Code) (status : Z) (label : string) :
  pool !! c = None ->
  (RegisterCode c status label pool).2 = None /\
  CodeHTTPStatus (RegisterCode c status label pool).1 c = status /\
  CodeString (RegisterCode c status label pool).1 c = label.
Proof.
  intros H. rewrite (RegisterCode_fresh _ _ _ _ H). simpl.
  unfold CodeHTTPStatus, CodeString. by rewrite lookup_insert_eq.
Qed.

Lemma RegisterCode_fresh_reads_back_witness :
  codePool0 !! 100 = None /\
  (RegisterCode 100 504 "database" codePool0).2 = None /\
  CodeHTTPStatus (RegisterCode 100 504 "database" codePool0).1 100 = 504 /\
  CodeString (RegisterCode 100 504 "database" codePool0).1 100 = "database".
Proof.
  split; [vm_compute; reflexivity |].
  apply (RegisterCode_fresh_reads_back codePool0 100 504 "database").
  vm_compute. reflexivity.
Defined.

(** ** The friendly message *)

Lemma Friendly_loop_sentence (ds : list value) :
  forall (len i : Z) (s : string),
    len = i + Z.of_nat (length ds) ->
    Friendly_loop len i ds s = s +:+ data_sentence ds.
Proof.
  induction ds as [|d rest IH]; intros len i s Hlen.
  - cbn. by rewrite append_empty_r.
  - cbn [Friendly_loop data_sentence].
    rewrite IH by (cbn [length] in Hlen; lia).
    destruct rest as [|d' rest].
    + cbn [length] in Hlen.
      assert (Hlast : (i <? len - 1)%Z = false) by (apply Z.ltb_ge; lia).
      rewrite Hlast. by rewrite !append_assoc.
    + cbn [length] in Hlen.
      assert (Hmore : (i <? len - 1)%Z = true) by (apply Z.ltb_lt; lia).
      rewrite Hmore. by rewrite !append_assoc.
Qed.

(** [Friendly] in closed form. *)
Lemma Error_Friendly_sentence pool (e : Error) :
  Error_Friendly pool e =
    if String.eqb (friendly e) "" && String.eqb (fix_ e) "" then ""
    else friendly_sentence pool e.
Proof.
  unfold Error_Friendly, friendly_sentence, Sprintf_s_colon_s.
  destruct (String.eqb (friendly e) "" && String.eqb (fix_ e) ""); [done |].
  rewrite Friendly_loop_sentence by lia.
  destruct (String.eqb (fix_ e) ""); cbn [negb].
  - by rewrite append_empty_r, !append_assoc.
  - by rewrite !append_assoc.
Qed.

Lemma friendly_sentence_not_empty pool (e : Error) :
  friendly_sentence pool e <> "".
Proof.
  unfold friendly_sentence. intros H.
  apply append_eq_empty in H as [_ H].
  by apply append_eq_empty in H as [H _].
Qed.

(** C1: when the friendly text or the fix is not empty, [Friendly] returns
    the label of the code, [": "], the friendly text, each data value after a
    space and followed by a comma, the last one by a period, and then, when
    the fix is not empty, a space and the fix. With the label ["auth"], the
    data ["apples"], ["oranges"] and a fix this is the sentence of the
    package's test. *)
Theorem Friendly_renders_sentence :
  (forall (pool : gmap Code codeDetails) (e : Error),
     friendly e <> "" \/ fix_ e <> "" ->
     Error_Friendly pool e = friendly_sentence pool e) /\
  (forall (pool : gmap Code codeDetails) (e : Error),
     CodeString pool (code e) = "auth" ->
     friendly e = "you don't have access to the following things:" ->
     data e = [VString "apples"; VString "oranges"] ->
     fix_ e = "are you sure you're logged in?" ->
     Error_Friendly pool e =
       "auth: you don't have access to the following things: apples, oranges. are you sure you're logged in?").
Proof.
  split.
  - intros pool e Hset. rewrite Error_Friendly_sentence.
    destruct Hset as [Hf | Hf]; apply eqb_empty_false in Hf; rewrite Hf;
      [done | by rewrite andb_false_r].
  - intros pool e Hlabel Hfriendly Hdata Hfix.
    rewrite Error_Friendly_sentence. unfold friendly_sentence.
    rewrite Hlabel, Hfriendly, Hdata, Hfix. vm_compute. reflexivity.
Qed.

Lemma Friendly_renders_sentence_witness :
  Error_Friendly codePool0
    (NewFriendlyFix CodeForbidden "forbidden"
       "you don't have access to the following things:"
       "are you sure you're logged in?"
       [VString "apples"; VString "oranges"])
  = "auth: you don't have access to the following things: apples, oranges. are you sure you're logged in?".
Proof.
  apply (proj2 Friendly_renders_sentence); vm_compute; reflexivity.
Defined.

(** C7: [Friendly] returns the empty string exactly when the friendly text
    and the fix are both empty, whatever the code and the data; so it does
    for every value built with [New]. *)
Theorem Friendly_empty_iff_unset :
  (forall (pool : gmap Code codeDetails) (e : Error),
     Error_Friendly pool e = "" <-> friendly e = "" /\ fix_ e = "") /\
  (forall (pool : gmap Code codeDetails) (c : Code) (message : string)
          (data : list value),
     Error_Friendly pool (New c message data) = "").
Proof.
  split; [| done].
  intros pool e. rewrite Error_Friendly_sentence.
  destruct (String.eqb_spec (friendly e) "") as [Hf | Hf];
    destruct (String.eqb_spec (fix_ e) "") as [Hx | Hx]; cbn [andb];
    (split; [| by intros [? ?]]); try done;
    intros H; by apply friendly_sentence_not_empty in H.
Qed.

Lemma Friendly_empty_iff_unset_witness :
  Error_Friendly codePool0
    (Wrap CodeNotFound (Some (plain "not found")) "lookup"
       [VInt 1; VBool true]) = "" /\
  Error_Friendly codePool0 (NewFriendly CodeNotFound "lookup" "gone" []) <> "".
Proof.
  split.
  - apply (proj1 Friendly_empty_iff_unset). vm_compute. done.
  - intros H. apply (proj1 Friendly_empty_iff_unset) in H as [H _].
    vm_compute in H. discriminate H.
Defined.

(** The Wrap family stores the code, the friendly text, the fix and the data
    as given, like the New family, and the two render the same friendly
    message. *)
Lemma WrapFriendlyFix_fields c (err : error) message friendly' fix' data' :
  let e := WrapFriendlyFix c err message friendly' fix' data' in
  code e = c /\ friendly e = friendly' /\ fix_ e = fix' /\ data e = data'.
Proof. done. Qed.

Lemma NewFriendlyFix_fields c message friendly' fix' data' :
  let e := NewFriendlyFix c message friendly' fix' data' in
  code e = c /\ friendly e = friendly' /\ fix_ e = fix' /\ data e = data'.
Proof. done. Qed.

Lemma Wrap_renders_like_New pool c (err : error) m m' friendly' fix' data' :
  Error_Friendly pool (WrapFriendlyFix c err m friendly' fix' data')
  = Error_Friendly pool (NewFriendlyFix c m' friendly' fix' data').
Proof. done. Qed.

(** C9, at the empty fix: [Friendly] ends with the period of the data list,
    without the space that ["... oranges. " + fix] has. *)
Lemma WrapFriendlyFix_empty_fix_no_space :
  let e := WrapFriendlyFix CodeForbidden (Some (plain "denied")) "forbidden"
             "you don't have access to the following things:" ""
             [VString "apples"; VString "oranges"] in
  Error_Friendly codePool0 e
    = "auth: you don't have access to the following things: apples, oranges."
  /\
  Error_Friendly codePool0 e
    <> "auth: you don't have access to the following things: apples, oranges. "
       +:+ "".
Proof. vm_compute. split; [reflexivity | discriminate]. Qed.

(** C9, amended: for a non-nil error and a non-empty fix, the value of
    [WrapFriendlyFix(CodeForbidden, err, "forbidden", "you don't have access
    to the following things:", fix, "apples", "oranges")] has the code
    [CodeForbidden], the fix [fix] and the friendly message
    ["auth: you don't have access to the following things: apples, oranges. "]
    followed by [fix], in every registry the program can reach; it stores the
    data as given and renders like [NewFriendlyFix] on the same arguments. *)
Theorem WrapFriendlyFix_forbidden_friendly
    (pool : gmap Code codeDetails) (err : error) (fix' : string) :
  reachable pool ->
  err <> None ->
  fix' <> "" ->
  let e := WrapFriendlyFix CodeForbidden err "forbidden"
             "you don't have access to the following things:" fix'
             [VString "apples"; VString "oranges"] in
  Error_Code e = CodeForbidden /\
  Error_Fix e = fix' /\
  data e = [VString "apples"; VString "oranges"] /\
  Error_Friendly pool e =
    "auth: you don't have access to the following things: apples, oranges. "
    +:+ fix' /\
  Error_Friendly pool e =
    Error_Friendly pool
      (NewFriendlyFix CodeForbidden "forbidden"
         "you don't have access to the following things:" fix'
         [VString "apples"; VString "oranges"]).
Proof.
  intros Hpool _ Hfix e. repeat split.
  rewrite Error_Friendly_sentence. unfold friendly_sentence.
  cbn [e code friendly fix_ data WrapFriendlyFix WrapFriendly Wrap
       set_fix set_friendly].
  rewrite (reachable_CodeString pool CodeForbidden (mkCodeDetails 403 "auth"))
    by (assumption || (vm_compute; reflexivity)).
  apply eqb_empty_false in Hfix. rewrite Hfix. reflexivity.
Qed.

Lemma WrapFriendlyFix_forbidden_friendly_witness :
  Error_Friendly (RegisterCode 100 504 "database" codePool0).1
    (WrapFriendlyFix CodeForbidden (Some (plain "denied")) "forbidden"
       "you don't have access to the following things:"
       "are you sure you're logged in?"
       [VString "apples"; VString "oranges"])
  = "auth: you don't have access to the following things: apples, oranges. "
    +:+ "are you sure you're logged in?".
Proof.
  apply (WrapFriendlyFix_forbidden_friendly
           (RegisterCode 100 504 "database" codePool0).1
           (Some (plain "denied")) "are you sure you're logged in?").
  - apply reachable_register, reachable_init.
  - discriminate.
  - discriminate.
Defined.

(** ** The developer-facing message *)

Lemma Error_Error_unfold pool (e : Error) :
  Error_Error pool e =
    match cause e with
    | None => Panics nil_dereference
    | Some c =>
        s ← err_Error pool c;
        mret (CodeString pool (code e) +:+ ": " +:+ s)
    end.
Proof. reflexivity. Qed.

(** C6: for an [Error] with a non-nil cause, [Error()] is the label of its
    code, [": "] and the string of the cause's own [Error()]. A value built
    with [New(CodeGeneric, "machine error")] has the string
    ["error: machine error"], in every registry the program can reach. *)
Theorem Error_is_label_and_cause :
  (forall (pool : gmap Code codeDetails) (e : Error) (c : err),
     cause e = Some c ->
     Error_Error pool e =
       (s ← err_Error pool c; mret (CodeString pool (code e) +:+ ": " +:+ s))
     /\
     forall s : string,
       err_Error pool c = Returns s ->
       Error_Error pool e = Returns (CodeString pool (code e) +:+ ": " +:+ s))
  /\
  (forall (pool : gmap Code codeDetails) (data : list value),
     reachable pool ->
     Error_Error pool (New CodeGeneric "machine error" data)
     = Returns "error: machine error").
Proof.
  split.
  - intros pool e c Hc. rewrite Error_Error_unfold, Hc.
    split; [done |]. intros s Hs. by rewrite Hs.
  - intros pool data' Hpool. rewrite Error_Error_unfold.
    cbn [New cause code errors.New err_Error].
    rewrite (reachable_CodeString pool CodeGeneric (mkCodeDetails 500 "error"))
      by (assumption || (vm_compute; reflexivity)).
    reflexivity.
Qed.

Lemma Error_is_label_and_cause_witness :
  Error_Error codePool0
    (Wrap CodeNotFound (Some (plain "no such row")) "lookup" [])
  = Returns "missing: lookup: no such row".
Proof.
  apply (proj1 Error_is_label_and_cause codePool0
           (Wrap CodeNotFound (Some (plain "no such row")) "lookup" [])
           (withStack (withMessage (plain "no such row") "lookup"))).
  - reflexivity.
  - vm_compute. reflexivity.
Defined.

(** ** The root cause *)

Lemma cause_of_shorter (x : err) (c : error) :
  errors.cause_of x = Some c ->
  chain_length x = S (chain_length_error c).
Proof.
  destruct x as [msg | msg | inner msg | inner | msg inner | e]; cbn;
    intros H; try discriminate H; injection H as <-; try done.
  - by destruct inner.
  - by destruct (cause e).
Qed.

(** Induction along the chain of causes. *)
Lemma error_chain_ind (P : error -> Prop) :
  P None ->
  (forall x, errors.cause_of x = None -> P (Some x)) ->
  (forall x c, errors.cause_of x = Some c -> P c -> P (Some x)) ->
  forall e, P e.
Proof.
  intros Hnil Hleaf Hstep e.
  remember (chain_length_error e) as n eqn:Hn.
  revert e Hn. induction n as [n IH] using lt_wf_ind. intros [x|] Hn.
  - destruct (errors.cause_of x) as [c|] eqn:Hc.
    + apply (Hstep x c Hc).
      apply (IH (chain_length_error c)); [| done].
      apply cause_of_shorter in Hc. cbn in Hn. lia.
    + by apply Hleaf.
  - exact Hnil.
Qed.

Lemma innermost_error_no_cause (e : error) (x : err) :
  innermost_error e x -> errors.cause_of x = None.
Proof. by induction 1. Qed.

(** A chain of causes ends in an error without a [Cause] method or in a nil
    cause. *)
Lemma chain_end (e : error) :
  e = None \/ (exists x, innermost_error e x) \/ ends_in_nil_cause e.
Proof.
  induction e as [| x Hx | x c Hc IH] using error_chain_ind.
  - by left.
  - right. left. exists x. by constructor.
  - right. destruct IH as [-> | [[r Hr] | Hnil]].
    + right. by constructor.
    + left. exists r. by econstructor.
    + right. by econstructor.
Qed.

(** The loop of [Cause] reaches the end of the chain within as many
    iterations as the chain has links. *)
Lemma Cause_reaches_innermost_error (e : error) (r : err) :
  innermost_error e r ->
  forall fuel : nat,
    (chain_length_error e <= fuel)%nat -> Cause fuel e = Some (Some r).
Proof.
  induction 1 as [x Hx | x c r Hc _ IH]; intros fuel Hfuel.
  - unfold Cause. destruct fuel; cbn; by rewrite Hx.
  - pose proof (cause_of_shorter x c Hc) as Hlen. cbn in Hfuel.
    destruct fuel as [| fuel]; [lia |].
    unfold Cause. cbn. rewrite Hc. apply IH. lia.
Qed.

Lemma Cause_reaches_nil_cause (e : error) :
  ends_in_nil_cause e ->
  forall fuel : nat,
    (chain_length_error e <= fuel)%nat -> Cause fuel e = Some None.
Proof.
  induction 1 as [x Hx | x c Hc _ IH]; intros fuel Hfuel.
  - pose proof (cause_of_shorter x None Hx) as Hlen. cbn in Hfuel.
    destruct fuel as [| fuel]; [lia |].
    unfold Cause. cbn. rewrite Hx. by destruct fuel.
  - pose proof (cause_of_shorter x c Hc) as Hlen. cbn in Hfuel.
    destruct fuel as [| fuel]; [lia |].
    unfold Cause. cbn. rewrite Hc. apply IH. lia.
Qed.

(** C2, on a non-nil error whose chain ends in a nil cause: [Cause] returns
    nil, with any number of iterations, and never an error. The first error
    is one of another package whose [Cause()] returns nil, the second the
    value of [Wrap(CodeGeneric, nil, "m")]. *)
Lemma Cause_nil_on_non_nil_error :
  let e1 : error := Some (causer "outer" None) in
  let e2 : error := as_error (Wrap CodeGeneric None "m" []) in
  (e1 <> None /\ Cause 1 e1 = Some None /\
   forall (fuel : nat) (x : err), Cause fuel e1 <> Some (Some x)) /\
  (e2 <> None /\ Cause 1 e2 = Some None /\
   forall (fuel : nat) (x : err), Cause fuel e2 <> Some (Some x)).
Proof.
  split; (split; [discriminate |]); (split; [reflexivity |]);
    intros [| [| fuel]] x; discriminate.
Qed.

(** C2, amended: [Cause] terminates on every error, within as many
    iterations as the chain of causes is long. When no error of the chain
    returns a nil cause, it returns the innermost error, the one that exposes
    no further cause, unchanged; when the chain ends in a nil cause, it
    returns nil. On the chain built by [New], [Wrap] and [WrapFriendlyFix] it
    returns the error of pkg/errors made from the message of [New], which is
    not an [*Error]; an error without a [Cause] method is returned as it is;
    nil gives nil. *)
Theorem Cause_returns_innermost_or_nil :
  (forall e : error,
     exists r : error,
       (forall k : nat, Cause (chain_length_error e + k) e = Some r) /\
       match r with
       | Some x => innermost_error e x /\ errors.cause_of x = None
       | None => e = None \/ ends_in_nil_cause e
       end) /\
  (forall e : error,
     e <> None -> ~ ends_in_nil_cause e ->
     exists x : err,
       innermost_error e x /\ errors.cause_of x = None /\
       forall k : nat, Cause (chain_length_error e + k) e = Some (Some x)) /\
  (forall e : error,
     ends_in_nil_cause e ->
     forall k : nat, Cause (chain_length_error e + k) e = Some None) /\
  (forall (c1 c2 c3 : Code) (m1 m2 m3 friendly' fix' : string)
          (d1 d2 d3 : list value) (k : nat),
     let a := New c1 m1 d1 in
     let b := Wrap c2 (as_error a) m2 d2 in
     let c := WrapFriendlyFix c3 (as_error b) m3 friendly' fix' d3 in
     Cause (7 + k) (as_error c) = Some (Some (fundamental m1)) /\
     is_rich (Some (fundamental m1)) = false) /\
  (forall (x : err) (fuel : nat),
     errors.cause_of x = None -> Cause fuel (Some x) = Some (Some x)) /\
  (forall fuel : nat, Cause fuel None = Some None).
Proof.
  split; [| split; [| split; [| split; [| split]]]].
  - intros e. destruct (chain_end e) as [-> | [[x Hx] | Hnil]].
    + exists None. split; [| by left]. intros k. by destruct k.
    + exists (Some x). split.
      * intros k. apply (Cause_reaches_innermost_error e x Hx). lia.
      * split; [done | by apply (innermost_error_no_cause e)].
    + exists None. split; [| by right].
      intros k. apply (Cause_reaches_nil_cause e Hnil). lia.
  - intros e He Hnonil. destruct (chain_end e) as [-> | [[x Hx] | Hnil]];
      [done | | done].
    exists x. split; [done |].
    split; [by apply (innermost_error_no_cause e) |].
    intros k. apply (Cause_reaches_innermost_error e x Hx). lia.
  - intros e Hnil k. apply (Cause_reaches_nil_cause e Hnil). lia.
  - intros. split; [| done].
    apply Cause_reaches_innermost_error; [| cbn; lia].
    subst a b c. unfold as_error.
    repeat (eapply innermost_error_below; [reflexivity |]); cbn.
    by apply innermost_error_here.
  - intros x fuel Hx. unfold Cause. destruct fuel; cbn; by rewrite Hx.
  - intros fuel. by destruct fuel.
Qed.

Lemma Cause_returns_innermost_or_nil_witness :
  (exists x : err,
     innermost_error (Some (withStack (plain "not found"))) x /\
     errors.cause_of x = None /\
     forall k : nat,
       Cause (chain_length_error (Some (withStack (plain "not found"))) + k)
         (Some (withStack (plain "not found")))
       = Some (Some x)) /\
  Cause 1 (Some (causer "outer" None)) = Some None /\
  Cause 0 (Some (plain "not found")) = Some (Some (plain "not found")) /\
  Cause 7
    (as_error
       (WrapFriendlyFix CodeForbidden
          (as_error (Wrap CodeInvalidArgs
                       (as_error (New CodeGeneric "so bad" [])) "a" []))
          "you're not allowed access to the value"
          "please try a different value" "a" []))
  = Some (Some (fundamental "so bad")).
Proof.
  pose proof Cause_returns_innermost_or_nil
    as (_ & Hinner & Hnil & Hchain & Hplain & _).
  split; [| split; [| split]].
  - apply (Hinner (Some (withStack (plain "not found")))); [discriminate |].
    intros H. inversion H as [x Hx | x c Hc Hbelow]; [discriminate Hx |].
    injection Hc as <-.
    inversion Hbelow as [y Hy | y d Hd _]; [discriminate Hy | discriminate Hd].
  - apply (Hnil (Some (causer "outer" None))
             (ends_in_nil_cause_here (causer "outer" None) eq_refl) 0%nat).
  - apply (Hplain (plain "not found") 0%nat). reflexivity.
  - apply (Hchain CodeGeneric CodeInvalidArgs CodeForbidden "so bad" "a"
             "you're not allowed access to the value"
             "please try a different value" "a" [] [] [] 0%nat).
Defined.

(** ** The cause of a constructed error *)

(** The New family always sets a cause; the Wrap family does on a non-nil
    error. *)
Lemma New_family_cause c message friendly' fix' data' :
  Error_Cause (New c message data') = Some (fundamental message) /\
  Error_Cause (NewFriendly c message friendly' data')
    = Some (fundamental message) /\
  Error_Cause (NewFriendlyFix c message friendly' fix' data')
    = Some (fundamental message).
Proof. done. Qed.

Lemma Wrap_family_cause c (x : err) message friendly' fix' data' :
  Error_Cause (Wrap c (Some x) message data')
    = Some (withStack (withMessage x message)) /\
  Error_Cause (WrapFriendly c (Some x) message friendly' data')
    = Some (withStack (withMessage x message)) /\
  Error_Cause (WrapFriendlyFix c (Some x) message friendly' fix' data')
    = Some (withStack (withMessage x message)).
Proof. done. Qed.

(** C4, at [Wrap(CodeGeneric, nil, "msg")]: the three Wrap constructors
    return a value whose [Cause()] is nil, because pkg/errors' [Wrap] returns
    nil on a nil error. *)
Theorem Wrap_of_nil_has_nil_cause :
  Error_Cause (Wrap CodeGeneric None "msg" []) = None /\
  Error_Cause (WrapFriendly CodeGeneric None "msg" "friendly" []) = None /\
  Error_Cause (WrapFriendlyFix CodeGeneric None "msg" "friendly" "fix" [])
    = None.
Proof. vm_compute. done. Qed.

(** C10: for every code, message and data, [Wrap(code, nil, message,
    data...)] returns a value, not nil, whose [Cause()] is nil and whose
    [Error()] panics on the nil cause instead of returning a string. *)
Theorem Wrap_nil_returns_value_that_panics
    (pool : gmap Code codeDetails) (c : Code) (message : string)
    (data' : list value) :
  as_error (Wrap c None message data') <> None /\
  Error_Cause (Wrap c None message data') = None /\
  Error_Error pool (Wrap c None message data') = Panics nil_dereference /\
  (forall s : string,
     Error_Error pool (Wrap c None message data') <> Returns s).
Proof. repeat split; done. Qed.

(** ** More on the registry *)

(** X1: a call of [RegisterCode], failed or not, leaves the details of every
    other code and of every code already registered as they were. *)
Theorem RegisterCode_frame
    (pool : gmap Code codeDetails) (c k : Code) (status : Z) (label : string) :
  k <> c \/ is_Some (pool !! k) ->
  (RegisterCode c status label pool).1 !! k = pool !! k /\
  CodeString (RegisterCode c status label pool).1 k = CodeString pool k /\
  CodeHTTPStatus (RegisterCode c status label pool).1 k
    = CodeHTTPStatus pool k.
Proof.
  intros Hk.
  assert (Hsame : (RegisterCode c status label pool).1 !! k = pool !! k).
  { destruct Hk as [Hne | [d Hd]].
    - unfold RegisterCode. destruct (pool !! c); cbn; [done |].
      by rewrite lookup_insert_ne.
    - rewrite Hd. by apply RegisterCode_keeps. }
  unfold CodeString, CodeHTTPStatus. by rewrite Hsame.
Qed.

Lemma RegisterCode_frame_witness :
  CodeString (RegisterCode 100 504 "database" codePool0).1 CodeNotFound
    = CodeString codePool0 CodeNotFound /\
  CodeHTTPStatus (RegisterCode 100 504 "database" codePool0).1 (-1)
    = CodeHTTPStatus codePool0 (-1).
Proof.
  split.
  - apply (RegisterCode_frame codePool0 100 CodeNotFound 504 "database").
    left. discriminate.
  - apply (RegisterCode_frame codePool0 100 (-1) 504 "database").
    left. discriminate.
Defined.

(** X2: in every registry the program can reach, each code of the initial
    table still has its initial label and status, and registering it again
    fails. *)
Theorem builtin_codes_are_fixed
    (pool : gmap Code codeDetails) (k : Code) (d : codeDetails)
    (status : Z) (label : string) :
  reachable pool ->
  codePool0 !! k = Some d ->
  CodeString pool k = str d /\
  CodeHTTPStatus pool k = httpStatus d /\
  (RegisterCode k status label pool).2 <> None /\
  (RegisterCode k status label pool).1 = pool.
Proof.
  intros Hpool Hk.
  pose proof (reachable_keeps pool k d Hpool Hk) as Hd.
  split; [by apply reachable_CodeString |].
  split; [by apply reachable_CodeHTTPStatus |].
  by rewrite (RegisterCode_registered _ _ _ _ _ Hd).
Qed.

Lemma builtin_codes_are_fixed_witness :
  CodeString (RegisterCode 100 504 "database" codePool0).1 CodeUnavailable
    = "unavailable" /\
  CodeHTTPStatus (RegisterCode 100 504 "database" codePool0).1 CodeUnavailable
    = 503 /\
  (RegisterCode CodeUnavailable 200 "fine"
     (RegisterCode 100 504 "database" codePool0).1).2 <> None /\
  (RegisterCode CodeUnavailable 200 "fine"
     (RegisterCode 100 504 "database" codePool0).1).1
  = (RegisterCode 100 504 "database" codePool0).1.
Proof.
  apply (builtin_codes_are_fixed
           (RegisterCode 100 504 "database" codePool0).1 CodeUnavailable
           (mkCodeDetails 503 "unavailable") 200 "fine").
  - apply reachable_register, reachable_init.
  - vm_compute. reflexivity.
Defined.

(** X3: the first registration of a code wins: after a successful
    [RegisterCode], one more call for the same code fails, whatever status and
    label it brings, and the code reads back the first status and label. *)
Theorem first_registration_wins
    (pool : gmap Code codeDetails) (c : Code)
    (status status' : Z) (label label' : string) :
  pool !! c = None ->
  let pool1 := (RegisterCode c status label pool).1 in
  (RegisterCode c status' label' pool1).2 <> None /\
  (RegisterCode c status' label' pool1).1 = pool1 /\
  CodeHTTPStatus (RegisterCode c status' label' pool1).1 c = status /\
  CodeString (RegisterCode c status' label' pool1).1 c = label.
Proof.
  intros Hfresh pool1.
  assert (Hc : pool1 !! c = Some (mkCodeDetails status label)).
  { subst pool1. rewrite (RegisterCode_fresh _ _ _ _ Hfresh). cbn.
    apply lookup_insert_eq. }
  rewrite (RegisterCode_registered _ _ _ _ _ Hc). cbn.
  unfold CodeHTTPStatus, CodeString. by rewrite Hc.
Qed.

Lemma first_registration_wins_witness :
  codePool0 !! 100 = None /\
  (RegisterCode 100 200 "cache"
     (RegisterCode 100 504 "database" codePool0).1).2 <> None /\
  CodeHTTPStatus
    (RegisterCode 100 200 "cache"
       (RegisterCode 100 504 "database" codePool0).1).1 100 = 504.
Proof.
  split; [vm_compute; reflexivity |].
  destruct (first_registration_wins codePool0 100 504 200 "database" "cache")
    as (Herr & _ & Hstatus & _); [vm_compute; reflexivity |].
  split; [exact Herr | exact Hstatus].
Defined.

(** X4: registrations of two different codes commute: either order leaves the
    same registry. *)
Theorem RegisterCode_commutes
    (pool : gmap Code codeDetails) (c1 c2 : Code)
    (status1 status2 : Z) (label1 label2 : string) :
  c1 <> c2 ->
  (RegisterCode c2 status2 label2 (RegisterCode c1 status1 label1 pool).1).1
  = (RegisterCode c1 status1 label1 (RegisterCode c2 status2 label2 pool).1).1.
Proof.
  intros Hne. unfold RegisterCode.
  destruct (pool !! c1) as [d1|] eqn:H1; destruct (pool !! c2) as [d2|] eqn:H2;
    cbn; rewrite ?H1, ?H2; cbn;
    rewrite ?lookup_insert_ne by congruence; rewrite ?H1, ?H2; cbn;
    try done.
  by apply insert_insert_ne.
Qed.

Lemma RegisterCode_commutes_witness :
  (RegisterCode 101 507 "disk" (RegisterCode 100 504 "database" codePool0).1).1
  = (RegisterCode 100 504 "database" (RegisterCode 101 507 "disk" codePool0).1).1.
Proof.
  apply (RegisterCode_commutes codePool0 100 101 504 507 "database" "disk").
  discriminate.
Defined.

(** X5: the registry never loses a code: after [RegisterCode] its codes are
    those it had and the code of the call. *)
Theorem RegisterCode_domain
    (pool : gmap Code codeDetails) (c : Code) (status : Z) (label : string) :
  dom (RegisterCode c status label pool).1 = {[c]} ∪ dom pool.
Proof.
  unfold RegisterCode. destruct (pool !! c) as [d|] eqn:Hc; cbn.
  - assert (Hin : c ∈ dom pool) by (apply elem_of_dom; eauto).
    apply set_eq. intros k. rewrite elem_of_union, elem_of_singleton.
    split; [by right | by intros [-> | ?]].
  - apply dom_insert_L.
Qed.

(** X6: the error of a failed [RegisterCode] is an [*Error] of code
    [CodeInvalidArgs] that keeps the rejected code as its only data value; it
    has no friendly message, and in every registry the program can reach its
    [Error()] is ["arguments: already registered"] and its code has status
    400. *)
Theorem RegisterCode_failure_value
    (pool : gmap Code codeDetails) (c : Code) (status : Z) (label : string) :
  reachable pool ->
  is_Some (pool !! c) ->
  exists e : Error,
    (RegisterCode c status label pool).2 = as_error e /\
    Error_Code e = CodeInvalidArgs /\
    data e = [VInt c] /\
    Error_Friendly pool e = "" /\
    Error_Error pool e = Returns "arguments: already registered" /\
    CodeHTTPStatus pool (Error_Code e) = 400.
Proof.
  intros Hpool [d Hd].
  exists (New CodeInvalidArgs "already registered" [VInt c]).
  rewrite (RegisterCode_registered _ _ _ _ _ Hd).
  split; [done |]. split; [done |]. split; [done |]. split; [done |].
  split.
  - rewrite Error_Error_unfold.
    cbn [New cause code errors.New err_Error].
    by rewrite (reachable_CodeString pool CodeInvalidArgs
                  (mkCodeDetails 400 "arguments")).
  - by apply (reachable_CodeHTTPStatus pool CodeInvalidArgs
                (mkCodeDetails 400 "arguments")).
Qed.

Lemma RegisterCode_failure_value_witness :
  exists e : Error,
    (RegisterCode CodeForbidden 200 "forbidden" codePool0).2 = as_error e /\
    Error_Code e = CodeInvalidArgs /\
    data e = [VInt CodeForbidden] /\
    Error_Friendly codePool0 e = "" /\
    Error_Error codePool0 e = Returns "arguments: already registered" /\
    CodeHTTPStatus codePool0 (Error_Code e) = 400.
Proof.
  apply (RegisterCode_failure_value codePool0 CodeForbidden 200 "forbidden").
  - apply reachable_init.
  - vm_compute. eauto.
Defined.

(** ** More on the developer-facing message *)

(** X7: for the New family, [Error()] always returns, and its string is the
    label of the code, [": "] and the message: the friendly text, the fix
    and the data are not part of it. *)
Theorem Error_of_New_family
    (pool : gmap Code codeDetails) (c : Code)
    (message friendly' fix' : string) (data' : list value) :
  Error_Error pool (New c message data')
    = Returns (CodeString pool c +:+ ": " +:+ message) /\
  Error_Error pool (NewFriendly c message friendly' data')
    = Returns (CodeString pool c +:+ ": " +:+ message) /\
  Error_Error pool (NewFriendlyFix c message friendly' fix' data')
    = Returns (CodeString pool c +:+ ": " +:+ message).
Proof. rewrite !Error_Error_unfold. done. Qed.

(** X8: for the Wrap family on a non-nil error, [Error()] is the label of
    the code, [": "], the message, [": "] and the wrapped error's own
    [Error()] string, and it panics when the wrapped error's [Error()]
    does; wrapping an [*Error] nests its string after the message. *)
Theorem Error_of_Wrap_family
    (pool : gmap Code codeDetails) (c : Code) (x : err)
    (message friendly' fix' : string) (data' : list value) :
  let rendering :=
    s ← err_Error pool x;
    mret (CodeString pool c +:+ ": " +:+ message +:+ ": " +:+ s) in
  Error_Error pool (Wrap c (Some x) message data') = rendering /\
  Error_Error pool (WrapFriendly c (Some x) message friendly' data')
    = rendering /\
  Error_Error pool (WrapFriendlyFix c (Some x) message friendly' fix' data')
    = rendering /\
  (forall e : Error, x = rich e -> err_Error pool x = Error_Error pool e).
Proof.
  intros rendering.
  assert (Hwrap : Error_Error pool (Wrap c (Some x) message data')
                  = rendering).
  { rewrite Error_Error_unfold.
    cbn [Wrap cause code errors.Wrap err_Error]. subst rendering.
    destruct (err_Error pool x) as [s | reason]; reflexivity. }
  repeat split; try exact Hwrap. by intros e ->.
Qed.

Lemma Error_of_Wrap_family_witness :
  Error_Error codePool0
    (WrapFriendlyFix CodeForbidden
       (as_error (Wrap CodeInvalidArgs
                    (as_error (New CodeGeneric "so bad" [])) "a" []))
       "you're not allowed access to the value"
       "please try a different value" "a" [])
  = Returns
      "auth: you're not allowed access to the value: arguments: a: error: so bad".
Proof.
  pose proof (Error_of_Wrap_family codePool0 CodeForbidden
                (rich (Wrap CodeInvalidArgs
                         (as_error (New CodeGeneric "so bad" [])) "a" []))
                "you're not allowed access to the value"
                "please try a different value" "a" []) as (_ & _ & H & _).
  refine (eq_trans H _). vm_compute. reflexivity.
Defined.

Lemma err_Error_outcome (pool : gmap Code codeDetails) :
  forall (n : nat) (x : err),
    (chain_length x < n)%nat ->
    (causes_present x = true -> exists s, err_Error pool x = Returns s) /\
    (causes_present x = false -> err_Error pool x = Panics nil_dereference).
Proof.
  induction n as [| n IH]; intros x Hn; [lia |].
  destruct x as [msg | msg | inner msg | inner | msg inner | e].
  - split; [by eexists | discriminate].
  - split; [by eexists | discriminate].
  - cbn [chain_length] in Hn.
    destruct (IH inner ltac:(lia)) as [Hok Hbad].
    cbn [causes_present err_Error]. split; intros H.
    + destruct (Hok H) as [s Hs]. rewrite Hs. by eexists.
    + by rewrite (Hbad H).
  - cbn [chain_length] in Hn.
    destruct (IH inner ltac:(lia)) as [Hok Hbad].
    cbn [causes_present err_Error]. by split.
  - split; [by eexists | discriminate].
  - destruct e as [c f fx d [inner |]].
    + cbn [chain_length cause] in Hn.
      destruct (IH inner ltac:(lia)) as [Hok Hbad].
      cbn [causes_present err_Error Error_Error_open cause code].
      split; intros H.
      * destruct (Hok H) as [s Hs]. rewrite Hs. by eexists.
      * by rewrite (Hbad H).
    + cbn [causes_present err_Error Error_Error_open cause code].
      split; [discriminate | done].
Qed.

(** X9: [Error()] returns a string exactly when no [*Error] on its way down
    the chain has a nil cause; otherwise it panics on the nil cause. *)
Theorem Error_returns_iff_causes_present
    (pool : gmap Code codeDetails) (e : Error) :
  ((exists s : string, Error_Error pool e = Returns s)
   <-> causes_present (rich e) = true) /\
  (causes_present (rich e) = false ->
   Error_Error pool e = Panics nil_dereference).
Proof.
  destruct (err_Error_outcome pool (S (chain_length (rich e))) (rich e))
    as [Hok Hbad]; [lia |].
  change (err_Error pool (rich e)) with (Error_Error pool e) in Hok, Hbad.
  split; [| exact Hbad]. split; [| exact Hok].
  intros [s Hs]. destruct (causes_present (rich e)); [done |].
  rewrite Hbad in Hs by done. discriminate Hs.
Qed.

Lemma Error_returns_iff_causes_present_witness :
  (exists s : string,
     Error_Error codePool0
       (Wrap CodeNotFound (Some (plain "no such row")) "lookup" [])
     = Returns s) /\
  Error_Error codePool0
    (Wrap CodeGeneric (as_error (Wrap CodeNotFound None "lookup" [])) "outer" [])
  = Panics nil_dereference.
Proof.
  split.
  - apply (proj1 (Error_returns_iff_causes_present codePool0
                    (Wrap CodeNotFound (Some (plain "no such row")) "lookup" []))).
    reflexivity.
  - apply (proj2 (Error_returns_iff_causes_present codePool0
                    (Wrap CodeGeneric
                       (as_error (Wrap CodeNotFound None "lookup" []))
                       "outer" []))).
    reflexivity.
Defined.

(** ** More on the root cause *)

(** X10: [Cause] looks through the Wrap family: on an error wrapped by
    [Wrap], [WrapFriendly] or [WrapFriendlyFix] it returns what it returns on
    the wrapped error, three iterations later. *)
Theorem Cause_through_Wrap_family
    (fuel : nat) (c : Code) (x : err)
    (message friendly' fix' : string) (data' : list value) :
  Cause (3 + fuel) (as_error (Wrap c (Some x) message data'))
    = Cause fuel (Some x) /\
  Cause (3 + fuel) (as_error (WrapFriendly c (Some x) message friendly' data'))
    = Cause fuel (Some x) /\
  Cause (3 + fuel)
    (as_error (WrapFriendlyFix c (Some x) message friendly' fix' data'))
    = Cause fuel (Some x).
Proof. done. Qed.

(** X11: the root cause of an error of the New family is not an [*Error],
    and its [Error()] string is the message the constructor was given. *)
Theorem Cause_of_New_family
    (pool : gmap Code codeDetails) (k : nat) (c : Code)
    (message friendly' fix' : string) (data' : list value) :
  exists r : err,
    Cause (S k) (as_error (New c message data')) = Some (Some r) /\
    Cause (S k) (as_error (NewFriendly c message friendly' data'))
      = Some (Some r) /\
    Cause (S k) (as_error (NewFriendlyFix c message friendly' fix' data'))
      = Some (Some r) /\
    is_rich (Some r) = false /\
    err_Error pool r = Returns message.
Proof. exists (fundamental message). by destruct k. Qed.

(** X12: the root cause of an error built by the Wrap family on a nil error
    is nil, although the error itself is not. *)
Theorem Cause_of_Wrap_nil
    (k : nat) (c : Code) (message friendly' fix' : string)
    (data' : list value) :
  as_error (Wrap c None message data') <> None /\
  Cause (S k) (as_error (Wrap c None message data')) = Some None /\
  Cause (S k) (as_error (WrapFriendly c None message friendly' data'))
    = Some None /\
  Cause (S k) (as_error (WrapFriendlyFix c None message friendly' fix' data'))
    = Some None.
Proof. by destruct k. Qed.

Lemma Cause_result_exposes_no_cause :
  forall (fuel : nat) (e r : error),
    Cause fuel e = Some r -> exposes_no_cause r.
Proof.
  unfold Cause.
  induction fuel as [| fuel IH]; intros [x |] r H; cbn in H.
  - destruct (errors.cause_of x) eqn:Hx; [discriminate |].
    injection H as <-. exact Hx.
  - by injection H as <-.
  - destruct (errors.cause_of x) as [c |] eqn:Hx.
    + by apply (IH c).
    + injection H as <-. exact Hx.
  - by injection H as <-.
Qed.

(** X13: [Cause] is idempotent: what it returns is its own root cause, found
    without a further iteration. *)
Theorem Cause_idempotent (fuel fuel' : nat) (e r : error) :
  Cause fuel e = Some r -> Cause fuel' r = Some r.
Proof.
  intros H. apply Cause_result_exposes_no_cause in H.
  unfold Cause. destruct r as [x |]; [| by destruct fuel'].
  cbn in H. destruct fuel'; cbn; by rewrite H.
Qed.

Lemma Cause_idempotent_witness :
  Cause 0 (Some (plain "not found")) = Some (Some (plain "not found")).
Proof.
  apply (Cause_idempotent 3 0
           (as_error (Wrap CodeNotFound (Some (plain "not found")) "lookup" []))
           (Some (plain "not found"))).
  reflexivity.
Defined.

Lemma no_cause_no_links (x : err) :
  errors.cause_of x = None -> chain_length x = 0%nat.
Proof. by destruct x. Qed.

(** X14: the loop of [Cause] makes exactly as many iterations as the chain
    has links: it is cut short exactly when it is given fewer. *)
Theorem Cause_needs_chain_length (e : error) (fuel : nat) :
  Cause fuel e = None <-> (fuel < chain_length_error e)%nat.
Proof.
  revert fuel.
  induction e as [| x Hx | x c Hc IH] using error_chain_ind; intros fuel.
  - cbn. destruct fuel; cbn; split; (discriminate || lia).
  - unfold Cause. cbn [chain_length_error].
    rewrite (no_cause_no_links x Hx).
    destruct fuel; cbn; rewrite Hx; split; (discriminate || lia).
  - unfold Cause. cbn [chain_length_error].
    rewrite (cause_of_shorter x c Hc).
    destruct fuel as [| fuel]; cbn; rewrite Hc.
    + split; [lia | done].
    + fold (Cause fuel c). rewrite IH. lia.
Qed.

Lemma Cause_needs_chain_length_witness :
  Cause 2 (as_error (Wrap CodeNotFound (Some (plain "not found")) "lookup" []))
  = None.
Proof.
  apply (Cause_needs_chain_length
           (as_error (Wrap CodeNotFound (Some (plain "not found")) "lookup" []))
           2).
  cbn. lia.
Defined.

(** ** More on the friendly message *)

Lemma absent_code_reads_default (pool : gmap Code codeDetails) (c : Code) :
  pool !! c = None ->
  CodeString pool c = "error" /\ CodeHTTPStatus pool c = 500.
Proof. intros H. unfold CodeString, CodeHTTPStatus. by rewrite H. Qed.

(** X15: with a fix, no friendly text and no data, [Friendly] puts two
    spaces between the colon and the fix: the one of the format ["%s: %s"]
    and the one before the fix. *)
Theorem Friendly_of_fix_alone (pool : gmap Code codeDetails) (e : Error) :
  friendly e = "" ->
  fix_ e <> "" ->
  data e = [] ->
  Error_Friendly pool e = CodeString pool (code e) +:+ ":  " +:+ fix_ e.
Proof.
  intros Hf Hx Hd. rewrite Error_Friendly_sentence. unfold friendly_sentence.
  apply eqb_empty_false in Hx. rewrite Hf, Hd, Hx. reflexivity.
Qed.

Lemma Friendly_of_fix_alone_witness :
  Error_Friendly codePool0
    (NewFriendlyFix CodeForbidden "forbidden" "" "log in first" [])
  = "auth:  log in first".
Proof.
  apply (Friendly_of_fix_alone codePool0
           (NewFriendlyFix CodeForbidden "forbidden" "" "log in first" []));
    [reflexivity | discriminate | reflexivity].
Defined.

(** X16: an [Error] does not store its label: [Friendly] and [Error()] look
    it up when they are called. An error whose code is not registered renders
    with ["error"], and with the new label once the code is registered. *)
Theorem label_is_read_at_call_time
    (pool : gmap Code codeDetails) (status : Z) (label : string)
    (c : Code) (message friendly' fix' : string) (data' : list value) :
  pool !! c = None ->
  friendly' <> "" ->
  let e := NewFriendlyFix c message friendly' fix' data' in
  let pool' := (RegisterCode c status label pool).1 in
  let rest := ": " +:+ friendly' +:+ data_sentence data'
              +:+ (if String.eqb fix' "" then "" else " " +:+ fix') in
  Error_Friendly pool e = "error" +:+ rest /\
  Error_Friendly pool' e = label +:+ rest /\
  Error_Error pool e = Returns ("error" +:+ ": " +:+ message) /\
  Error_Error pool' e = Returns (label +:+ ": " +:+ message).
Proof.
  intros Hfresh Hf e pool' rest.
  destruct (absent_code_reads_default pool c Hfresh) as [Hold _].
  assert (Hnew : CodeString pool' c = label).
  { subst pool'. rewrite (RegisterCode_fresh _ _ _ _ Hfresh). cbn.
    unfold CodeString. by rewrite lookup_insert_eq. }
  apply eqb_empty_false in Hf.
  rewrite !Error_Friendly_sentence, !Error_Error_unfold.
  unfold friendly_sentence.
  cbn [e NewFriendlyFix NewFriendly New set_fix set_friendly
       code friendly fix_ data cause errors.New err_Error].
  rewrite Hf, Hold, Hnew. cbn [andb]. done.
Qed.

Lemma label_is_read_at_call_time_witness :
  Error_Friendly codePool0
    (NewFriendlyFix 100 "no database" "the database is down" "" [])
  = "error: the database is down" /\
  Error_Friendly (RegisterCode 100 504 "database" codePool0).1
    (NewFriendlyFix 100 "no database" "the database is down" "" [])
  = "database: the database is down".
Proof.
  destruct (label_is_read_at_call_time codePool0 504 "database" 100
              "no database" "the database is down" "" [])
    as (Hold & Hnew & _); [vm_compute; reflexivity | discriminate |].
  split; [exact Hold | exact Hnew].
Defined.
